(** * ignite-timer: the Home component (cycle store and countdown)

    A shallow embedding of [Home] (the page component of the timer): its
    three pieces of React state, the values derived from them on each
    render, the two handlers, the interval callback of the countdown
    effect, and the rendering of the remaining time.

    Conventions of the embedding.
    - A [Date] is its [getTime()] value, an integer number of
      milliseconds.  Every callback reads the clock once: the reads
      [new Date()] of one callback get the same value [now].
    - Numbers are integers ([Z]): the minutes field is a whole number
      (the form's number input moves in steps of 5) and every other
      number is computed from it and from whole seconds.
    - A cycle object carries the address it is allocated at.  React
      compares the dependencies of an effect with [Object.is], which on
      two objects compares addresses, and an object spread
      [{ ...cycle, f: v }] allocates a new object.
    - A callback runs to its end, then React renders and runs the effect
      again if one of its dependencies changed ([commit]). *)

From Stdlib Require Import ZArith NArith List String Ascii Bool Lia.
From Stdlib Require Import DecimalString Sorted.
From Stdlib Require DecimalZ DecimalPos.
Import ListNotations.

Local Open Scope string_scope.
Local Open Scope list_scope.
Local Open Scope Z_scope.

(** ** JavaScript and date-fns primitives *)

Definition Date := Z.

(** [String(n)] for an integer [n]. *)
Definition String_ (n : Z) : string := NilZero.string_of_int (Z.to_int n).

(** [s.padStart(targetLength, padString)]: [s] is returned as it is when
    it is long enough or the filler is empty; otherwise the filler is
    repeated and cut to the missing length, and put in front. *)
Fixpoint repeatTo (fill cur : string) (n : nat) : string :=
  match n with
  | O => ""
  | S n' =>
      match cur with
      | String a cur' => String a (repeatTo fill cur' n')
      | EmptyString =>
          match fill with
          | String a fill' => String a (repeatTo fill fill' n')
          | EmptyString => ""
          end
      end
  end.

Definition padStart (targetLength : nat) (padString : string) (s : string) : string :=
  if (targetLength <=? String.length s)%nat then s
  else match padString with
       | EmptyString => s
       | _ => (repeatTo padString padString (targetLength - String.length s) ++ s)%string
       end.

(** [differenceInSeconds(dateLeft, dateRight)] of date-fns: the
    difference in milliseconds over 1000, rounded towards zero. *)
Definition differenceInSeconds (dateLeft dateRight : Date) : Z :=
  Z.quot (dateLeft - dateRight) 1000.

(** ** Data *)

(** [NewCycleFormData], the type inferred from the form's schema. *)
Module NewCycleFormData.
Record t := mk { task : string; minutesAmount : Z }.
End NewCycleFormData.

(** [newCycleFormValidationSchema]: the task has at least one character
    and the minutes are between 5 and 60. *)
Definition newCycleFormValidationSchema (data : NewCycleFormData.t) : bool :=
  (1 <=? String.length (NewCycleFormData.task data))%nat
  && (5 <=? NewCycleFormData.minutesAmount data)
  && (NewCycleFormData.minutesAmount data <=? 60).

(** [interface Cycle].  [addr] is the address of the object; the two
    optional dates are absent ([None]) until they are written. *)
Module Cycle.
Record t := mk {
  addr : N;
  id : string;
  task : string;
  minutesAmount : Z;
  startDate : Date;
  interruptedDate : option Date;
  finishedDate : option Date
}.

(** [{ ...cycle, interruptedDate: d }], allocated at [a]. *)
Definition withInterruptedDate (a : N) (d : Date) (c : t) : t :=
  mk a (id c) (task c) (minutesAmount c) (startDate c) (Some d) (finishedDate c).

(** [{ ...cycle, finishedDate: d }], allocated at [a]. *)
Definition withFinishedDate (a : N) (d : Date) (c : t) : t :=
  mk a (id c) (task c) (minutesAmount c) (startDate c) (interruptedDate c) (Some d).
End Cycle.

(** What the callback given to [setInterval] closed over: the values of
    [activeCycle], [totalSeconds] and [activeCycleId] of the render in
    which the effect ran. *)
Record Interval := {
  seenActiveCycle : Cycle.t;
  seenTotalSeconds : Z;
  seenActiveCycleId : option string
}.

(** The component: the three [useState] cells, the interval of the
    countdown effect if one is scheduled, and the first free address. *)
Record Home := {
  cycles : list Cycle.t;
  activeCycleId : option string;
  amountSecondsPassed : Z;
  interval : option Interval;
  heapTop : N
}.

Definition initial : Home :=
  {| cycles := []; activeCycleId := None; amountSecondsPassed := 0;
     interval := None; heapTop := 0%N |}.

(** ** Values derived on each render *)

(** [cycle.id === activeCycleId]; no string is [=== null]. *)
Definition isActive (activeCycleId : option string) (cycle : Cycle.t) : bool :=
  match activeCycleId with
  | Some i => String.eqb (Cycle.id cycle) i
  | None => false
  end.

(** [cycles.find((cycle) => cycle.id === activeCycleId)] *)
Definition activeCycle (st : Home) : option Cycle.t :=
  find (isActive (activeCycleId st)) (cycles st).

Definition totalSeconds (st : Home) : Z :=
  match activeCycle st with
  | Some c => Cycle.minutesAmount c * 60
  | None => 0
  end.

Definition currentSeconds (st : Home) : Z :=
  match activeCycle st with
  | Some _ => totalSeconds st - amountSecondsPassed st
  | None => 0
  end.

(** [Math.floor(currentSeconds / 60)] and [currentSeconds % 60]: the
    remainder of JavaScript has the sign of the dividend. *)
Definition minutesAmount (st : Home) : Z := currentSeconds st / 60.
Definition secondsAmount (st : Home) : Z := Z.rem (currentSeconds st) 60.

Definition minutes (st : Home) : string := padStart 2 "0" (String_ (minutesAmount st)).
Definition seconds (st : Home) : string := padStart 2 "0" (String_ (secondsAmount st)).

(** The text [`${minutes}:${seconds}`] that the title effect writes, and
    that the four digit cells show around the separator. *)
Definition display (st : Home) : string :=
  (minutes st ++ ":" ++ seconds st)%string.

(** ** The countdown effect *)

(** The dependency array [[activeCycle, totalSeconds, activeCycleId]]:
    an object is compared by its address. *)
Definition deps (st : Home) : option N * Z * option string :=
  (option_map Cycle.addr (activeCycle st), totalSeconds st, activeCycleId st).

Definition sameOption {A} (eqb : A -> A -> bool) (x y : option A) : bool :=
  match x, y with
  | Some a, Some b => eqb a b
  | None, None => true
  | _, _ => false
  end.

Definition sameDeps (d1 d2 : option N * Z * option string) : bool :=
  let '(c1, t1, i1) := d1 in
  let '(c2, t2, i2) := d2 in
  sameOption N.eqb c1 c2 && (t1 =? t2) && sameOption String.eqb i1 i2.

(** The body of the effect: an interval is set when there is an active
    cycle, and its callback closes over the values of this render. *)
Definition runEffect (st : Home) : option Interval :=
  match activeCycle st with
  | Some c => Some {| seenActiveCycle := c;
                      seenTotalSeconds := totalSeconds st;
                      seenActiveCycleId := activeCycleId st |}
  | None => None
  end.

Definition withInterval (st : Home) (i : option Interval) : Home :=
  {| cycles := cycles st; activeCycleId := activeCycleId st;
     amountSecondsPassed := amountSecondsPassed st;
     interval := i; heapTop := heapTop st |}.

(** The render that follows a callback.  [prev] is the state of the
    previous render and [next] the state the callback left.  When a
    dependency changed, the cleanup of the previous run clears its
    interval and the effect runs again; otherwise nothing is touched. *)
Definition commit (prev next : Home) : Home :=
  if sameDeps (deps prev) (deps next) then next
  else withInterval next (runEffect next).

(** ** Handlers and the interval callback *)

(** [handleCreateNewCycle(data)]; the form's [reset()] is not part of
    the state modelled here. *)
Definition handleCreateNewCycle (data : NewCycleFormData.t) (now : Date) (st : Home) : Home :=
  let id := String_ now in
  let newCycle :=
    Cycle.mk (heapTop st) id (NewCycleFormData.task data)
             (NewCycleFormData.minutesAmount data) now None None in
  commit st
    {| cycles := cycles st ++ [newCycle];
       activeCycleId := Some id;
       amountSecondsPassed := 0;
       interval := interval st;
       heapTop := N.succ (heapTop st) |}.

(** The two [state.map] updaters.  The copy of the object at address [a]
    is allocated at [top + a], above every address in use. *)
Definition markInterrupted (activeCycleId : option string) (now : Date) (top : N)
    (state : list Cycle.t) : list Cycle.t :=
  map (fun cycle =>
         if isActive activeCycleId cycle
         then Cycle.withInterruptedDate (top + Cycle.addr cycle)%N now cycle
         else cycle) state.

Definition markFinished (activeCycleId : option string) (now : Date) (top : N)
    (state : list Cycle.t) : list Cycle.t :=
  map (fun cycle =>
         if isActive activeCycleId cycle
         then Cycle.withFinishedDate (top + Cycle.addr cycle)%N now cycle
         else cycle) state.

Definition handleInterruptCycle (now : Date) (st : Home) : Home :=
  commit st
    {| cycles := markInterrupted (activeCycleId st) now (heapTop st) (cycles st);
       activeCycleId := None;
       amountSecondsPassed := amountSecondsPassed st;
       interval := interval st;
       heapTop := (heapTop st + heapTop st)%N |}.

(** One firing of the interval.  Without a scheduled interval nothing
    fires.  In the first branch the callback ends with
    [clearInterval(interval)]. *)
Definition tick (now : Date) (st : Home) : Home :=
  match interval st with
  | None => st
  | Some seen =>
      let secondsDifference :=
        differenceInSeconds now (Cycle.startDate (seenActiveCycle seen)) in
      if secondsDifference >=? seenTotalSeconds seen then
        commit st
          {| cycles := markFinished (seenActiveCycleId seen) now (heapTop st) (cycles st);
             activeCycleId := activeCycleId st;
             amountSecondsPassed := seenTotalSeconds seen;
             interval := None;
             heapTop := (heapTop st + heapTop st)%N |}
      else
        commit st
          {| cycles := cycles st;
             activeCycleId := activeCycleId st;
             amountSecondsPassed := secondsDifference;
             interval := interval st;
             heapTop := heapTop st |}
  end.

(** ** What the page lets happen *)

Inductive Event :=
| Submit (data : NewCycleFormData.t) (now : Date)
| ClickInterrupt (now : Date)
| Tick (now : Date).

(** The start button (the form's only submit control) is rendered when
    there is no active cycle, and [handleSubmit] calls the handler only
    with data the schema accepts; the stop button is rendered when there
    is an active cycle; the interval fires while it is scheduled. *)
Definition enabled (st : Home) (e : Event) : bool :=
  match e with
  | Submit data _ =>
      match activeCycle st with
      | None => newCycleFormValidationSchema data
      | Some _ => false
      end
  | ClickInterrupt _ =>
      match activeCycle st with Some _ => true | None => false end
  | Tick _ =>
      match interval st with Some _ => true | None => false end
  end.

Definition fire (e : Event) (st : Home) : Home :=
  match e with
  | Submit data now => handleCreateNewCycle data now st
  | ClickInterrupt now => handleInterruptCycle now st
  | Tick now => tick now st
  end.

Definition run (es : list Event) (st : Home) : Home :=
  fold_left (fun s e => fire e s) es st.

(** Every event of [es] is offered by the page when its turn comes. *)
Fixpoint offered (es : list Event) (st : Home) : bool :=
  match es with
  | [] => true
  | e :: es' => enabled st e && offered es' (fire e st)
  end.

Inductive reachable : Home -> Prop :=
| reach_initial : reachable initial
| reach_step st e : reachable st -> enabled st e = true -> reachable (fire e st).

(** ** Invariant, observations and the specification's display *)

(** After every render the scheduled interval is the one the effect sets
    for the current values, and every object lies below [heapTop]. *)
Definition synced (st : Home) : Prop :=
  interval st = runEffect st /\
  Forall (fun c => (Cycle.addr c < heapTop st)%N) (cycles st).

(** The values of [amountSecondsPassed] after each of the firings [ts]
    of the interval, in order. *)
Fixpoint countdown (ts : list Date) (st : Home) : list Z :=
  match ts with
  | [] => []
  | now :: ts' =>
      let st' := tick now st in
      amountSecondsPassed st' :: countdown ts' st'
  end.

(** The display as the specification words it: the remaining seconds are
    [totalSeconds - elapsedSeconds], the minutes their quotient by 60
    rounded down, the seconds their remainder, and each is written with
    two decimal digits. *)
Definition digit (d : Z) : ascii := ascii_of_nat (48 + Z.to_nat d).

Definition twoDigits (n : Z) : string :=
  String (digit (n / 10)) (String (digit (n mod 10)) EmptyString).

Definition displaySpec (totalSeconds elapsedSeconds : Z) : string :=
  let remaining := totalSeconds - elapsedSeconds in
  (twoDigits (remaining / 60) ++ ":" ++ twoDigits (remaining mod 60))%string.

Definition paddedAsTwoDigits (k : nat) : bool :=
  String.eqb (padStart 2 "0" (String_ (Z.of_nat k))) (twoDigits (Z.of_nat k)).

(** The minutes the form's schema lets through. *)
Definition validMinutes (c : Cycle.t) : Prop := 5 <= Cycle.minutesAmount c <= 60.



(** The input of the examples: a five-minute cycle. *)
Definition fiveMinutes : NewCycleFormData.t := NewCycleFormData.mk "a" 5.

(** ** The title effect and the digit cells *)

(** The page: the component and [document.title]. *)
Record Page := { home : Home; title : string }.

(** The dependency array [[minutes, seconds, activeCycle]] of the title
    effect. *)
Definition titleDeps (st : Home) : string * string * option N :=
  (minutes st, seconds st, option_map Cycle.addr (activeCycle st)).

Definition sameTitleDeps (d1 d2 : string * string * option N) : bool :=
  let '(m1, s1, c1) := d1 in
  let '(m2, s2, c2) := d2 in
  String.eqb m1 m2 && String.eqb s1 s2 && sameOption N.eqb c1 c2.

(** The body of the title effect: the title is written only when there
    is an active cycle. *)
Definition titleEffect (st : Home) (title : string) : string :=
  match activeCycle st with
  | Some _ => display st
  | None => title
  end.

(** The title after the render that follows a callback: the effect runs
    when one of its dependencies changed. *)
Definition commitTitle (prev next : Home) (title : string) : string :=
  if sameTitleDeps (titleDeps prev) (titleDeps next) then title
  else titleEffect next title.

(** The first render, on a document whose title is [title0]: both
    effects run once. *)
Definition mount (title0 : string) : Page :=
  {| home := initial; title := titleEffect initial title0 |}.

Definition firePage (e : Event) (pg : Page) : Page :=
  {| home := fire e (home pg);
     title := commitTitle (home pg) (fire e (home pg)) (title pg) |}.

Definition runPage (es : list Event) (pg : Page) : Page :=
  fold_left (fun p e => firePage e p) es pg.

(** The four cells of the countdown: [minutes[0]], [minutes[1]],
    [seconds[0]], [seconds[1]]; an index past the end gives undefined. *)
Definition cells (st : Home) : list (option ascii) :=
  [String.get 0 (minutes st); String.get 1 (minutes st);
   String.get 0 (seconds st); String.get 1 (seconds st)].

(** Reading a displayed text back: the value of its two-digit fields. *)
Definition digitValue (a : ascii) : Z := Z.of_nat (nat_of_ascii a) - 48.

Definition readDisplay (s : string) : Z :=
  match s with
  | String m1 (String m0 (String _ (String s1 (String s0 _)))) =>
      (10 * digitValue m1 + digitValue m0) * 60 + (10 * digitValue s1 + digitValue s0)
  | _ => 0
  end.

Definition readsBack (k : nat) : bool :=
  readDisplay (displaySpec (Z.of_nat k) 0) =? Z.of_nat k.

(** What no event changes in a stored cycle: its id, task, minutes and
    start date; and a date that is set stays set. *)
Definition sameIdentity (c c' : Cycle.t) : Prop :=
  Cycle.id c' = Cycle.id c /\ Cycle.task c' = Cycle.task c /\
  Cycle.minutesAmount c' = Cycle.minutesAmount c /\
  Cycle.startDate c' = Cycle.startDate c /\
  (Cycle.interruptedDate c <> None -> Cycle.interruptedDate c' <> None) /\
  (Cycle.finishedDate c <> None -> Cycle.finishedDate c' <> None).

(** A cycle as [handleSubmit] lets it in: the schema accepted its task
    and minutes. *)
Definition admitted (c : Cycle.t) : Prop :=
  Cycle.task c <> "" /\ validMinutes c.

(** The times of the submits of a sequence of events, in order. *)
Definition submitTimes (es : list Event) : list Date :=
  flat_map (fun e => match e with Submit _ now => [now] | _ => [] end) es.

(** ** Lemmas on the primitives *)

Section Marking.
(** Both updaters have the shape [state.map(c => p(c) ? upd(c) : c)]
    with an [upd] that keeps the [id]. *)
Variable aid : option string.
Variable upd : Cycle.t -> Cycle.t.
Hypothesis upd_id : forall c, Cycle.id (upd c) = Cycle.id c.

Let mark (c : Cycle.t) : Cycle.t := if isActive aid c then upd c else c.

Lemma isActive_upd c : isActive aid (upd c) = isActive aid c.
Proof. unfold isActive. now rewrite upd_id. Qed.

Lemma find_mark l :
  find (isActive aid) (map mark l) = option_map upd (find (isActive aid) l).
Proof.
  induction l as [|c l IH]; simpl; [reflexivity|].
  unfold mark at 1 2. destruct (isActive aid c) eqn:E.
  - now rewrite isActive_upd, E.
  - now rewrite E.
Qed.

Lemma mark_absent l : find (isActive aid) l = None -> map mark l = l.
Proof.
  induction l as [|c l IH]; simpl; [reflexivity|].
  unfold mark at 1. destruct (isActive aid c) eqn:E; [discriminate|].
  intros H. now rewrite IH.
Qed.

End Marking.

Lemma isActive_None c : isActive None c = false.
Proof. reflexivity. Qed.

Lemma find_isActive_None l : find (isActive None) l = None.
Proof. induction l; simpl; auto. Qed.

Lemma find_isActive_id aid l c :
  find (isActive aid) l = Some c -> aid = Some (Cycle.id c).
Proof.
  intros H. apply find_some in H as [_ H].
  destruct aid as [i|]; simpl in H; [|discriminate].
  apply String.eqb_eq in H. now subst.
Qed.

Lemma find_app_l {A} (p : A -> bool) l1 l2 x :
  find p l1 = Some x -> find p (l1 ++ l2) = Some x.
Proof.
  induction l1 as [|a l1 IH]; simpl; [discriminate|].
  destruct (p a); auto.
Qed.

Lemma find_app_r {A} (p : A -> bool) l1 l2 :
  find p l1 = None -> find p (l1 ++ l2) = find p l2.
Proof.
  induction l1 as [|a l1 IH]; simpl; [reflexivity|].
  destruct (p a); [discriminate|auto].
Qed.

Lemma sameOption_spec {A} (eqb : A -> A -> bool) x y :
  (forall a b, eqb a b = true <-> a = b) ->
  sameOption eqb x y = true <-> x = y.
Proof.
  intros E. destruct x, y; simpl; rewrite ?E; split; congruence.
Qed.

Lemma sameDeps_spec d1 d2 : sameDeps d1 d2 = true <-> d1 = d2.
Proof.
  destruct d1 as [[c1 t1] i1], d2 as [[c2 t2] i2]. unfold sameDeps.
  rewrite !andb_true_iff, Z.eqb_eq.
  rewrite (sameOption_spec N.eqb c1 c2 N.eqb_eq).
  rewrite (sameOption_spec String.eqb i1 i2 String.eqb_eq).
  split; [intros [[-> ->] ->]; reflexivity | intros H; inversion H; auto].
Qed.

(** ** The render keeps what the callback wrote *)

Lemma commit_cycles p n : cycles (commit p n) = cycles n.
Proof. unfold commit. now destruct sameDeps. Qed.

Lemma commit_activeCycleId p n : activeCycleId (commit p n) = activeCycleId n.
Proof. unfold commit. now destruct sameDeps. Qed.

Lemma commit_amountSecondsPassed p n :
  amountSecondsPassed (commit p n) = amountSecondsPassed n.
Proof. unfold commit. now destruct sameDeps. Qed.

Lemma commit_heapTop p n : heapTop (commit p n) = heapTop n.
Proof. unfold commit. now destruct sameDeps. Qed.

Lemma commit_activeCycle p n : activeCycle (commit p n) = activeCycle n.
Proof. unfold activeCycle. now rewrite commit_cycles, commit_activeCycleId. Qed.

Lemma commit_totalSeconds p n : totalSeconds (commit p n) = totalSeconds n.
Proof. unfold totalSeconds. now rewrite commit_activeCycle. Qed.

Lemma commit_runEffect p n : runEffect (commit p n) = runEffect n.
Proof.
  unfold runEffect.
  now rewrite commit_activeCycle, commit_totalSeconds, commit_activeCycleId.
Qed.

Lemma commit_interval p n :
  interval (commit p n) =
  if sameDeps (deps p) (deps n) then interval n else runEffect n.
Proof. unfold commit. now destruct sameDeps. Qed.

(** ** The interval agrees with the render *)

Lemma synced_interval st seen :
  synced st -> interval st = Some seen ->
  activeCycle st = Some (seenActiveCycle seen) /\
  seenTotalSeconds seen = totalSeconds st /\
  seenActiveCycleId seen = activeCycleId st.
Proof.
  intros [H _] E. rewrite H in E. unfold runEffect in E.
  destruct (activeCycle st); inversion E; subst; simpl; auto.
Qed.

Lemma synced_no_interval st :
  synced st -> (interval st = None <-> activeCycle st = None).
Proof.
  intros [H _]. rewrite H. unfold runEffect.
  destruct (activeCycle st); split; congruence.
Qed.

Lemma activeCycle_below st c :
  synced st -> activeCycle st = Some c -> (Cycle.addr c < heapTop st)%N.
Proof.
  intros [_ H] E. apply find_some in E as [E _].
  rewrite Forall_forall in H. now apply H.
Qed.

Lemma synced_initial : synced initial.
Proof. split; [reflexivity | constructor]. Qed.

Lemma runEffect_ext a b :
  cycles a = cycles b -> activeCycleId a = activeCycleId b ->
  runEffect a = runEffect b.
Proof.
  intros Hc Hi. unfold runEffect, totalSeconds, activeCycle.
  now rewrite Hc, Hi.
Qed.

Lemma marked_below aid (upd : N -> Cycle.t -> Cycle.t) top l :
  (forall a c, Cycle.addr (upd a c) = a) ->
  Forall (fun c => (Cycle.addr c < top)%N) l ->
  Forall (fun c => (Cycle.addr c < top + top)%N)
         (map (fun c => if isActive aid c then upd (top + Cycle.addr c)%N c else c) l).
Proof.
  intros Hu H. rewrite Forall_map. eapply Forall_impl; [|exact H].
  intros c Hc. simpl in Hc. destruct (isActive aid c); [rewrite Hu|]; lia.
Qed.

Lemma synced_handleCreateNewCycle data now st :
  synced st -> synced (handleCreateNewCycle data now st).
Proof.
  intros [Hi Hb]. unfold handleCreateNewCycle.
  set (new := Cycle.mk _ _ _ _ _ _ _).
  set (next := Build_Home _ _ _ _ _).
  assert (Hnew : isActive (Some (String_ now)) new = true)
    by (simpl; apply String.eqb_refl).
  split.
  - rewrite commit_interval, commit_runEffect.
    destruct (sameDeps (deps st) (deps next)) eqn:E; [|reflexivity].
    apply sameDeps_spec in E. unfold deps in E. inversion E as [[Ha Ht Hid]].
    change (interval next) with (interval st). rewrite Hi.
    unfold runEffect. rewrite Ht.
    change (activeCycleId next) with (Some (String_ now)). rewrite Hid.
    unfold activeCycle in *. rewrite Hid in *. simpl in *.
    destruct (find _ (cycles st)) as [c|] eqn:F.
    + now rewrite (find_app_l _ _ _ _ F).
    + rewrite (find_app_r _ _ _ F) in Ha. simpl in Ha.
      rewrite Hnew in Ha. discriminate.
  - rewrite commit_cycles, commit_heapTop. simpl.
    apply Forall_app. split.
    + eapply Forall_impl; [|exact Hb]. simpl. intros; lia.
    + constructor; [simpl; lia | constructor].
Qed.

Lemma synced_handleInterruptCycle now st :
  synced st -> synced (handleInterruptCycle now st).
Proof.
  intros [Hi Hb]. unfold handleInterruptCycle.
  set (next := Build_Home _ _ _ _ _).
  assert (Hn : runEffect next = None)
    by (unfold runEffect, activeCycle; simpl; now rewrite find_isActive_None).
  split.
  - rewrite commit_interval, commit_runEffect, Hn.
    destruct (sameDeps (deps st) (deps next)) eqn:E; [|reflexivity].
    apply sameDeps_spec in E. unfold deps in E. inversion E as [[Ha Ht Hid]].
    change (interval next) with (interval st). rewrite Hi.
    unfold runEffect, activeCycle. rewrite Hid. simpl.
    now rewrite find_isActive_None.
  - rewrite commit_cycles, commit_heapTop. simpl.
    now apply (marked_below _ (fun a c => Cycle.withInterruptedDate a now c)).
Qed.

Lemma synced_tick now st : synced st -> synced (tick now st).
Proof.
  intros S. unfold tick. destruct (interval st) as [seen|] eqn:I; [|exact S].
  destruct (synced_interval _ _ S I) as (Ha & Ht & Hid).
  destruct S as [Hi Hb].
  destruct (_ >=? seenTotalSeconds seen).
  - set (next := Build_Home _ _ _ _ _).
    assert (Hf : activeCycle next =
                 Some (Cycle.withFinishedDate
                         (heapTop st + Cycle.addr (seenActiveCycle seen))%N now
                         (seenActiveCycle seen))).
    { unfold activeCycle, next, markFinished. simpl. rewrite Hid.
      rewrite (find_mark (activeCycleId st)
                 (fun c => Cycle.withFinishedDate (heapTop st + Cycle.addr c)%N now c))
        by reflexivity.
      fold (activeCycle st). now rewrite Ha. }
    split.
    + rewrite commit_interval, commit_runEffect.
      destruct (sameDeps (deps st) (deps next)) eqn:E; [|reflexivity].
      apply sameDeps_spec in E. unfold deps in E. inversion E as [[Hx _]].
      rewrite Ha, Hf in Hx. simpl in Hx. inversion Hx as [Hx'].
      assert (Cycle.addr (seenActiveCycle seen) < heapTop st)%N
        by (apply activeCycle_below; [split|]; assumption).
      lia.
    + rewrite commit_cycles, commit_heapTop. simpl.
      now apply (marked_below _ (fun a c => Cycle.withFinishedDate a now c)).
  - set (next := Build_Home _ _ _ _ _).
    split.
    + rewrite commit_interval, commit_runEffect.
      destruct (sameDeps (deps st) (deps next)); [|reflexivity].
      change (interval next) with (Some seen). rewrite <- I, Hi.
      now apply runEffect_ext.
    + now rewrite commit_cycles, commit_heapTop.
Qed.

Lemma synced_fire e st : synced st -> synced (fire e st).
Proof.
  destruct e; simpl;
    auto using synced_handleCreateNewCycle, synced_handleInterruptCycle, synced_tick.
Qed.

Lemma reachable_synced st : reachable st -> synced st.
Proof. induction 1; auto using synced_initial, synced_fire. Qed.

Lemma synced_run es : forall st, synced st -> synced (run es st).
Proof.
  unfold run. induction es as [|e es IH]; simpl; auto using synced_fire.
Qed.

Lemma reachable_run es : forall st,
  reachable st -> offered es st = true -> reachable (run es st).
Proof.
  unfold run. induction es as [|e es IH]; simpl; intros st R H; [exact R|].
  apply andb_true_iff in H as [He Hes].
  apply IH; [now constructor | exact Hes].
Qed.

(** ** What the handlers write *)

Lemma handleCreateNewCycle_cycles data now st :
  cycles (handleCreateNewCycle data now st) =
  cycles st ++ [Cycle.mk (heapTop st) (String_ now) (NewCycleFormData.task data)
                         (NewCycleFormData.minutesAmount data) now None None].
Proof. unfold handleCreateNewCycle. now rewrite commit_cycles. Qed.

Lemma handleCreateNewCycle_activeCycleId data now st :
  activeCycleId (handleCreateNewCycle data now st) = Some (String_ now).
Proof. unfold handleCreateNewCycle. now rewrite commit_activeCycleId. Qed.

Lemma handleCreateNewCycle_amountSecondsPassed data now st :
  amountSecondsPassed (handleCreateNewCycle data now st) = 0.
Proof. unfold handleCreateNewCycle. now rewrite commit_amountSecondsPassed. Qed.

Lemma handleInterruptCycle_cycles now st :
  cycles (handleInterruptCycle now st) =
  markInterrupted (activeCycleId st) now (heapTop st) (cycles st).
Proof. unfold handleInterruptCycle. now rewrite commit_cycles. Qed.

Lemma handleInterruptCycle_activeCycleId now st :
  activeCycleId (handleInterruptCycle now st) = None.
Proof. unfold handleInterruptCycle. now rewrite commit_activeCycleId. Qed.

Lemma tick_length now st : List.length (cycles (tick now st)) = List.length (cycles st).
Proof.
  unfold tick. destruct (interval st); [|reflexivity].
  destruct (_ >=? _); rewrite commit_cycles; simpl; [|reflexivity].
  unfold markFinished. apply length_map.
Qed.

(** ** The interval callback, seen from the render *)

Lemma synced_active st c :
  synced st -> activeCycle st = Some c ->
  interval st = Some {| seenActiveCycle := c;
                        seenTotalSeconds := totalSeconds st;
                        seenActiveCycleId := activeCycleId st |}.
Proof. intros [H _] E. rewrite H. unfold runEffect. now rewrite E. Qed.

Lemma tick_activeCycleId now st : activeCycleId (tick now st) = activeCycleId st.
Proof.
  unfold tick. destruct (interval st); [|reflexivity].
  destruct (_ >=? _); now rewrite commit_activeCycleId.
Qed.

Section TickOnActive.
Variables (now : Date) (st : Home) (c : Cycle.t).
Hypothesis Hsync : synced st.
Hypothesis Hactive : activeCycle st = Some c.

Let secondsDifference := differenceInSeconds now (Cycle.startDate c).

Lemma tick_finishing :
  totalSeconds st <= secondsDifference ->
  cycles (tick now st)
    = markFinished (activeCycleId st) now (heapTop st) (cycles st) /\
  amountSecondsPassed (tick now st) = totalSeconds st.
Proof.
  intros H. unfold tick. rewrite (synced_active _ _ Hsync Hactive).
  cbn [seenActiveCycle seenTotalSeconds seenActiveCycleId].
  apply Z.leb_le in H. fold secondsDifference. rewrite Z.geb_leb, H.
  now rewrite commit_cycles, commit_amountSecondsPassed.
Qed.

Lemma tick_counting :
  secondsDifference < totalSeconds st ->
  cycles (tick now st) = cycles st /\
  amountSecondsPassed (tick now st) = secondsDifference.
Proof.
  intros H. unfold tick. rewrite (synced_active _ _ Hsync Hactive).
  cbn [seenActiveCycle seenTotalSeconds seenActiveCycleId].
  apply Z.leb_gt in H. fold secondsDifference. rewrite Z.geb_leb, H.
  now rewrite commit_cycles, commit_amountSecondsPassed.
Qed.

(** Whatever the branch, the active cycle after the tick is the same
    cycle up to its [finishedDate] and its address. *)
Lemma tick_activeCycle :
  exists c', activeCycle (tick now st) = Some c' /\
             Cycle.id c' = Cycle.id c /\
             Cycle.minutesAmount c' = Cycle.minutesAmount c /\
             Cycle.startDate c' = Cycle.startDate c.
Proof.
  destruct (Z.le_gt_cases (totalSeconds st) secondsDifference) as [H|H].
  - destruct (tick_finishing H) as [Hc _].
    exists (Cycle.withFinishedDate (heapTop st + Cycle.addr c)%N now c).
    split; [|now simpl].
    unfold activeCycle. rewrite tick_activeCycleId, Hc. unfold markFinished.
    rewrite (find_mark (activeCycleId st)
               (fun c => Cycle.withFinishedDate (heapTop st + Cycle.addr c)%N now c))
      by reflexivity.
    fold (activeCycle st). now rewrite Hactive.
  - destruct (tick_counting H) as [Hc _]. exists c. split; [|now auto].
    unfold activeCycle. now rewrite tick_activeCycleId, Hc.
Qed.

Lemma tick_amountSecondsPassed :
  amountSecondsPassed (tick now st) = Z.min secondsDifference (totalSeconds st).
Proof.
  destruct (Z.le_gt_cases (totalSeconds st) secondsDifference) as [H|H].
  - destruct (tick_finishing H) as [_ ->]. lia.
  - destruct (tick_counting H) as [_ ->]. lia.
Qed.
End TickOnActive.

(** A tick on an active cycle, finishing or not, leaves an interval
    scheduled: the cycle is still the active one afterwards. *)
Lemma tick_leaves_interval_scheduled now st c :
  synced st -> activeCycle st = Some c -> interval (tick now st) <> None.
Proof.
  intros Hs Ha. destruct (tick_activeCycle now st c Hs Ha) as (c' & Ha' & _).
  rewrite (synced_no_interval _ (synced_tick now st Hs)). congruence.
Qed.

(** ** Cycles of the reachable states *)

Lemma schema_minutes data :
  newCycleFormValidationSchema data = true ->
  5 <= NewCycleFormData.minutesAmount data <= 60.
Proof.
  unfold newCycleFormValidationSchema. rewrite !andb_true_iff, !Z.leb_le. tauto.
Qed.

Lemma enabled_Submit st data now :
  enabled st (Submit data now) = true ->
  activeCycle st = None /\ newCycleFormValidationSchema data = true.
Proof. simpl. destruct (activeCycle st); [discriminate | auto]. Qed.

Lemma marked_validMinutes aid (upd : Cycle.t -> Cycle.t) l :
  (forall c, Cycle.minutesAmount (upd c) = Cycle.minutesAmount c) ->
  Forall validMinutes l ->
  Forall validMinutes (map (fun c => if isActive aid c then upd c else c) l).
Proof.
  intros Hu H. rewrite Forall_map. eapply Forall_impl; [|exact H].
  intros c Hc. simpl in Hc. unfold validMinutes in *.
  destruct (isActive aid c); [rewrite Hu|]; exact Hc.
Qed.

Lemma reachable_validMinutes st : reachable st -> Forall validMinutes (cycles st).
Proof.
  induction 1 as [|st e R IH He]; [constructor|].
  destruct e as [data now|now|now]; simpl.
  - apply enabled_Submit in He as [_ Hv]. apply schema_minutes in Hv.
    rewrite handleCreateNewCycle_cycles. apply Forall_app.
    split; [exact IH | constructor; [exact Hv | constructor]].
  - rewrite handleInterruptCycle_cycles. unfold markInterrupted.
    now apply (marked_validMinutes _
                 (fun c => Cycle.withInterruptedDate (heapTop st + Cycle.addr c)%N now c)).
  - unfold tick. destruct (interval st) as [seen|]; [|exact IH].
    destruct (_ >=? _); rewrite commit_cycles; simpl; [|exact IH].
    unfold markFinished.
    now apply (marked_validMinutes _
                 (fun c => Cycle.withFinishedDate (heapTop st + Cycle.addr c)%N now c)).
Qed.

(** In a reachable state a set [activeCycleId] is the id of a stored
    cycle. *)
Lemma reachable_activeCycleId_stored st i :
  reachable st -> activeCycleId st = Some i ->
  exists c, activeCycle st = Some c /\ Cycle.id c = i.
Proof.
  intros R. revert i. induction R as [|st e R IH He]; intros i Hi; [discriminate|].
  destruct e as [data now|now|now]; simpl in *.
  - rewrite handleCreateNewCycle_activeCycleId in Hi. inversion Hi; subst i.
    unfold activeCycle.
    rewrite handleCreateNewCycle_cycles, handleCreateNewCycle_activeCycleId.
    destruct (find (isActive (Some (String_ now))) (cycles st)) as [c|] eqn:F.
    + exists c. split; [now apply find_app_l|].
      apply find_isActive_id in F. congruence.
    + rewrite (find_app_r _ _ _ F). simpl. rewrite String.eqb_refl.
      eexists. split; reflexivity.
  - rewrite handleInterruptCycle_activeCycleId in Hi. discriminate.
  - rewrite tick_activeCycleId in Hi. destruct (IH i Hi) as (c & Ha & Hc).
    destruct (tick_activeCycle now st c (reachable_synced _ R) Ha)
      as (c' & Ha' & Hid & _).
    exists c'. split; [exact Ha' | congruence].
Qed.

(** ** The finish branch of the countdown *)

(** C1.  The tick that detects completion writes [finishedDate] on the
    active cycle and sets the counter to [totalSeconds], but it leaves
    [activeCycleId] as it was: no tick ever writes [activeCycleId].  For
    a five-minute cycle created at 1000 ms, the tick at 301000 ms (300
    seconds later) stamps the cycle and the reference still holds its
    id, where [handleInterruptCycle] resets it to null. *)
Theorem finish_tick_keeps_activeCycleId :
  (forall now st, activeCycleId (tick now st) = activeCycleId st) /\
  let st := handleCreateNewCycle fiveMinutes 1000 initial in
  let st' := tick 301000 st in
  map Cycle.finishedDate (cycles st) = [None] /\
  map Cycle.finishedDate (cycles st') = [Some 301000] /\
  amountSecondsPassed st' = 300 /\
  activeCycleId st' = Some "1000" /\
  activeCycleId (handleInterruptCycle 301000 st) = None.
Proof.
  split; [exact tick_activeCycleId|].
  vm_compute. repeat split.
Qed.

(** C3.  The state after a five-minute cycle ran to its end is reachable
    through the page, and in it the active cycle (the one
    [activeCycleId] refers to) has its [finishedDate] set. *)
Theorem reachable_active_cycle_finished :
  let st := run [Submit fiveMinutes 1000; Tick 301000] initial in
  reachable st /\
  activeCycleId st = Some "1000" /\
  option_map Cycle.finishedDate (activeCycle st) = Some (Some 301000) /\
  option_map Cycle.interruptedDate (activeCycle st) = Some None.
Proof.
  split; [|vm_compute; repeat split].
  apply reachable_run; [constructor | reflexivity].
Qed.

(** C4.  After the finishing tick at 301000 ms the page still offers the
    next tick and the stop button.  The tick at 302000 ms replaces the
    [finishedDate] 301000 by 302000, and the click at 303000 ms adds an
    [interruptedDate] to the finished cycle, which then has both. *)
Theorem finished_cycle_dates_rewritten :
  let finished := run [Submit fiveMinutes 1000; Tick 301000] initial in
  let ticked := fire (Tick 302000) finished in
  let clicked := fire (ClickInterrupt 303000) ticked in
  reachable clicked /\
  map Cycle.finishedDate (cycles finished) = [Some 301000] /\
  map Cycle.finishedDate (cycles ticked) = [Some 302000] /\
  map Cycle.finishedDate (cycles clicked) = [Some 302000] /\
  map Cycle.interruptedDate (cycles clicked) = [Some 303000].
Proof.
  split; [|vm_compute; repeat split].
  apply (reachable_run
           [Submit fiveMinutes 1000; Tick 301000; Tick 302000; ClickInterrupt 303000]);
    [constructor | reflexivity].
Qed.

(** C5.  The finishing tick clears its own interval, but it also
    replaces the active cycle by a new object, so the effect runs again
    and sets a new interval: after the tick at 301000 ms an interval is
    scheduled, and its firing at 302000 ms takes the finish branch again
    and moves [finishedDate] from 301000 to 302000.  The counter is
    computed from the dates and clamped: 65 after 65 seconds, 300 at and
    after the end. *)
Theorem finished_cycle_keeps_ticking :
  let st := handleCreateNewCycle fiveMinutes 1000 initial in
  let finished := tick 301000 st in
  let again := tick 302000 finished in
  amountSecondsPassed (tick 66000 st) = 65 /\
  amountSecondsPassed finished = 300 /\
  map Cycle.finishedDate (cycles finished) = [Some 301000] /\
  enabled finished (Tick 302000) = true /\
  map Cycle.finishedDate (cycles again) = [Some 302000] /\
  amountSecondsPassed again = 300.
Proof. vm_compute. repeat split. Qed.

(** ** Creation *)

(** C2.  In a state with an active cycle a creation is rejected: the
    page offers no submit there, whatever the data (the start button,
    the form's only submit control, is not rendered).  Every event the
    page does offer in such a state, a click on the stop button or a
    firing of the interval, is not a submit, keeps the number of cycles
    and leaves [activeCycleId] as it was or null: no second cycle is
    appended and the reference is never moved to another cycle. *)
Theorem creation_offered_only_without_active_cycle st c :
  activeCycle st = Some c ->
  (forall data now, enabled st (Submit data now) = false) /\
  (forall e,
     enabled st e = true ->
     (forall data now, e <> Submit data now) /\
     List.length (cycles (fire e st)) = List.length (cycles st) /\
     (activeCycleId (fire e st) = activeCycleId st \/
      activeCycleId (fire e st) = None)).
Proof.
  intros Ha. split.
  - intros data now. simpl. now rewrite Ha.
  - intros e He. destruct e as [data now|now|now]; simpl in *.
    + rewrite Ha in He. discriminate.
    + repeat split; [discriminate| |right; apply handleInterruptCycle_activeCycleId].
      rewrite handleInterruptCycle_cycles. unfold markInterrupted. apply length_map.
    + repeat split; [discriminate|apply tick_length|left; apply tick_activeCycleId].
Qed.

Lemma creation_offered_only_without_active_cycle_witness :
  let st := handleCreateNewCycle fiveMinutes 1000 initial in
  (forall data now, enabled st (Submit data now) = false) /\
  (forall e,
     enabled st e = true ->
     (forall data now, e <> Submit data now) /\
     List.length (cycles (fire e st)) = List.length (cycles st) /\
     (activeCycleId (fire e st) = activeCycleId st \/
      activeCycleId (fire e st) = None)).
Proof.
  intros st.
  apply (creation_offered_only_without_active_cycle st
           (Cycle.mk 0 "1000" "a" 5 1000 None None)).
  reflexivity.
Defined.

(** C6.  [handleCreateNewCycle] appends exactly one cycle, whose
    [startDate] is the time of the call, whose task and minutes are the
    submitted ones and whose [interruptedDate] and [finishedDate] are
    absent; it sets [activeCycleId] to that cycle's id and
    [amountSecondsPassed] to 0.  This holds in every state and for every
    input, so in particular for a valid input with no cycle active. *)
Theorem handleCreateNewCycle_creates_and_activates data now st :
  exists newCycle,
    cycles (handleCreateNewCycle data now st) = cycles st ++ [newCycle] /\
    Cycle.task newCycle = NewCycleFormData.task data /\
    Cycle.minutesAmount newCycle = NewCycleFormData.minutesAmount data /\
    Cycle.startDate newCycle = now /\
    Cycle.interruptedDate newCycle = None /\
    Cycle.finishedDate newCycle = None /\
    activeCycleId (handleCreateNewCycle data now st) = Some (Cycle.id newCycle) /\
    amountSecondsPassed (handleCreateNewCycle data now st) = 0.
Proof.
  eexists. split; [apply handleCreateNewCycle_cycles|]. simpl.
  rewrite handleCreateNewCycle_activeCycleId, handleCreateNewCycle_amountSecondsPassed.
  repeat split.
Qed.

(** ** The counter during the life of a cycle *)

Lemma differenceInSeconds_mono a b start :
  a <= b -> differenceInSeconds a start <= differenceInSeconds b start.
Proof. intros H. unfold differenceInSeconds. apply Z.quot_le_mono; lia. Qed.

Lemma differenceInSeconds_nonneg now start :
  start <= now -> 0 <= differenceInSeconds now start.
Proof. intros H. unfold differenceInSeconds. apply Z.quot_pos; lia. Qed.

Lemma totalSeconds_active st c :
  activeCycle st = Some c -> totalSeconds st = Cycle.minutesAmount c * 60.
Proof. intros H. unfold totalSeconds. now rewrite H. Qed.

Lemma countdown_sorted_bounded ts : forall st c prev,
  synced st -> activeCycle st = Some c ->
  0 <= Cycle.minutesAmount c ->
  Sorted Z.le (prev :: ts) ->
  Cycle.startDate c <= prev ->
  amountSecondsPassed st <= differenceInSeconds prev (Cycle.startDate c) ->
  0 <= amountSecondsPassed st <= Cycle.minutesAmount c * 60 ->
  Sorted Z.le (amountSecondsPassed st :: countdown ts st) /\
  Forall (fun n => 0 <= n <= Cycle.minutesAmount c * 60) (countdown ts st).
Proof.
  induction ts as [|now ts IH]; intros st c prev Hs Ha Hm Hts Hp Hd Hb; simpl.
  - split; constructor; constructor.
  - inversion Hts as [|? ? Hts' Hhd]; subst. inversion Hhd as [|? ? Hle]; subst.
    pose proof (tick_amountSecondsPassed now st c Hs Ha) as Hn.
    rewrite (totalSeconds_active _ _ Ha) in Hn.
    pose proof (differenceInSeconds_mono prev now (Cycle.startDate c) Hle) as Hmono.
    destruct (tick_activeCycle now st c Hs Ha) as (c' & Ha' & _ & Hm' & Hs').
    assert (Hnew : 0 <= amountSecondsPassed (tick now st) <= Cycle.minutesAmount c * 60)
      by lia.
    destruct (IH (tick now st) c' now) as [Hsorted Hall];
      rewrite ?Hm', ?Hs'; auto using synced_tick; try lia.
    rewrite Hm' in Hall.
    split.
    + constructor; [exact Hsorted | constructor; lia].
    + constructor; assumption.
Qed.

(** C7.  A cycle is made active by a submit the page offers.  From
    that creation, through any firings of the interval at times that do
    not go back and are not before the [startDate] of the active cycle:
    the counter is 0 after the creation, its successive values never
    decrease, and each lies between 0 and [totalSeconds], which is
    [minutesAmount * 60] of the active cycle. *)
Theorem counter_monotone_and_clamped st data now c ts :
  reachable st ->
  enabled st (Submit data now) = true ->
  let created := handleCreateNewCycle data now st in
  activeCycle created = Some c ->
  Sorted Z.le (Cycle.startDate c :: ts) ->
  amountSecondsPassed created = 0 /\
  totalSeconds created = Cycle.minutesAmount c * 60 /\
  Sorted Z.le (amountSecondsPassed created :: countdown ts created) /\
  Forall (fun n => 0 <= n <= totalSeconds created)
         (amountSecondsPassed created :: countdown ts created).
Proof.
  intros Hr He created Ha Hts.
  assert (Rc : reachable created) by (apply (reach_step st (Submit data now)); assumption).
  assert (Hc : synced created) by now apply reachable_synced.
  assert (Hm : validMinutes c).
  { pose proof (reachable_validMinutes _ Rc) as Hall.
    rewrite Forall_forall in Hall. apply Hall.
    apply find_some in Ha. tauto. }
  unfold validMinutes in Hm.
  pose proof (handleCreateNewCycle_amountSecondsPassed data now st) as H0.
  fold created in H0.
  rewrite (totalSeconds_active _ _ Ha).
  destruct (countdown_sorted_bounded ts created c (Cycle.startDate c))
    as [Hsorted Hall]; auto; try lia.
  - rewrite H0. apply differenceInSeconds_nonneg. lia.
  - repeat split; auto. constructor; [lia | exact Hall].
Qed.

Lemma counter_monotone_and_clamped_witness :
  let created := handleCreateNewCycle fiveMinutes 1000 initial in
  let ts := [2000; 2000; 66000; 301000; 302000; 400000] in
  amountSecondsPassed created = 0 /\
  totalSeconds created = 5 * 60 /\
  Sorted Z.le (amountSecondsPassed created :: countdown ts created) /\
  Forall (fun n => 0 <= n <= totalSeconds created)
         (amountSecondsPassed created :: countdown ts created).
Proof.
  intros created ts.
  apply (counter_monotone_and_clamped initial fiveMinutes 1000
           (Cycle.mk 0 "1000" "a" 5 1000 None None) ts).
  - exact reach_initial.
  - reflexivity.
  - reflexivity.
  - simpl. repeat (constructor; try lia).
Defined.

Example countdown_five_minutes :
  countdown [2000; 2000; 66000; 301000; 302000; 400000]
            (handleCreateNewCycle fiveMinutes 1000 initial)
  = [1; 1; 65; 300; 300; 300].
Proof. reflexivity. Qed.

(** ** The displayed time *)

Lemma padStart_two_digits n :
  0 <= n < 100 -> padStart 2 "0" (String_ n) = twoDigits n.
Proof.
  intros H.
  assert (Hall : forallb paddedAsTwoDigits (seq 0 100) = true) by (vm_compute; reflexivity).
  rewrite forallb_forall in Hall.
  specialize (Hall (Z.to_nat n)).
  unfold paddedAsTwoDigits in Hall. rewrite Z2Nat.id in Hall by lia.
  apply String.eqb_eq, Hall, in_seq. lia.
Qed.

Lemma display_inactive st : activeCycle st = None -> display st = "00:00".
Proof.
  intros H. unfold display, minutes, seconds, minutesAmount, secondsAmount, currentSeconds.
  now rewrite H.
Qed.

(** C8.  With a cycle active and the counter within [0, totalSeconds]
    (for a total below 100 minutes; the form allows 60), the displayed
    text is the one derived from [totalSeconds - amountSecondsPassed] by
    quotient and remainder by 60, each written with two digits; without
    an active cycle it is 00:00; a new five-minute cycle shows 05:00 and,
    65 seconds later, 03:55. *)
Theorem display_derivation :
  (forall st c,
     activeCycle st = Some c ->
     0 <= amountSecondsPassed st <= totalSeconds st ->
     totalSeconds st < 6000 ->
     display st = displaySpec (totalSeconds st) (amountSecondsPassed st)) /\
  (forall st, activeCycle st = None -> display st = "00:00") /\
  display initial = "00:00" /\
  display (handleCreateNewCycle fiveMinutes 1000 initial) = "05:00" /\
  display (tick 66000 (handleCreateNewCycle fiveMinutes 1000 initial)) = "03:55".
Proof.
  split; [|split; [exact display_inactive | vm_compute; repeat split]].
  intros st c Ha Hb Ht.
  unfold display, displaySpec, minutes, seconds, minutesAmount, secondsAmount,
    currentSeconds.
  rewrite Ha.
  set (remaining := totalSeconds st - amountSecondsPassed st).
  assert (Hr : 0 <= remaining < 6000) by (unfold remaining; lia).
  rewrite Z.rem_mod_nonneg by lia.
  assert (Hs : 0 <= remaining mod 60 < 100)
    by (pose proof (Z.mod_pos_bound remaining 60); lia).
  assert (Hm : 0 <= remaining / 60 < 100)
    by (split; [apply Z.div_pos | apply Z.div_lt_upper_bound]; lia).
  now rewrite !padStart_two_digits.
Qed.

Lemma display_derivation_witness :
  let st := tick 66000 (handleCreateNewCycle fiveMinutes 1000 initial) in
  display st = displaySpec (totalSeconds st) (amountSecondsPassed st) /\
  display initial = "00:00".
Proof.
  intros st. split.
  - apply (proj1 display_derivation st (Cycle.mk 0 "1000" "a" 5 1000 None None)).
    + reflexivity.
    + vm_compute. split; discriminate.
    + reflexivity.
  - apply (proj1 (proj2 display_derivation) initial). reflexivity.
Defined.

(** ** Interruption *)

(** C9.  With an active cycle, [handleInterruptCycle] leaves in its
    place the same cycle with [interruptedDate] set to the time of the
    call, and sets [activeCycleId] to null.  Without an active cycle it
    changes no cycle, leaves the counter alone and [activeCycleId] is
    null afterwards.  The handler is a total function: it has a result
    in every state. *)
Theorem handleInterruptCycle_interrupts_active now st :
  (forall c,
     activeCycle st = Some c ->
     exists c',
       find (isActive (activeCycleId st)) (cycles (handleInterruptCycle now st))
         = Some c' /\
       Cycle.interruptedDate c' = Some now /\
       Cycle.id c' = Cycle.id c /\
       Cycle.task c' = Cycle.task c /\
       Cycle.minutesAmount c' = Cycle.minutesAmount c /\
       Cycle.startDate c' = Cycle.startDate c /\
       Cycle.finishedDate c' = Cycle.finishedDate c /\
       activeCycleId (handleInterruptCycle now st) = None) /\
  (activeCycle st = None ->
     cycles (handleInterruptCycle now st) = cycles st /\
     amountSecondsPassed (handleInterruptCycle now st) = amountSecondsPassed st /\
     activeCycleId (handleInterruptCycle now st) = None).
Proof.
  rewrite handleInterruptCycle_cycles, handleInterruptCycle_activeCycleId.
  unfold markInterrupted. split.
  - intros c Ha.
    exists (Cycle.withInterruptedDate (heapTop st + Cycle.addr c)%N now c).
    rewrite (find_mark (activeCycleId st)
               (fun c => Cycle.withInterruptedDate (heapTop st + Cycle.addr c)%N now c))
      by reflexivity.
    fold (activeCycle st). rewrite Ha. simpl. repeat split.
  - intros Ha. repeat split.
    + now apply (mark_absent (activeCycleId st)
                   (fun c => Cycle.withInterruptedDate (heapTop st + Cycle.addr c)%N now c)).
    + unfold handleInterruptCycle. now rewrite commit_amountSecondsPassed.
Qed.

Lemma handleInterruptCycle_interrupts_active_witness :
  let st := handleCreateNewCycle fiveMinutes 1000 initial in
  (exists c',
     find (isActive (activeCycleId st)) (cycles (handleInterruptCycle 11000 st))
       = Some c' /\
     Cycle.interruptedDate c' = Some 11000 /\
     Cycle.id c' = "1000" /\
     Cycle.task c' = "a" /\
     Cycle.minutesAmount c' = 5 /\
     Cycle.startDate c' = 1000 /\
     Cycle.finishedDate c' = None /\
     activeCycleId (handleInterruptCycle 11000 st) = None) /\
  cycles (handleInterruptCycle 12000 initial) = cycles initial /\
  amountSecondsPassed (handleInterruptCycle 12000 initial) = amountSecondsPassed initial /\
  activeCycleId (handleInterruptCycle 12000 initial) = None.
Proof.
  intros st. split.
  - apply (proj1 (handleInterruptCycle_interrupts_active 11000 st)
                 (Cycle.mk 0 "1000" "a" 5 1000 None None)).
    reflexivity.
  - apply (proj2 (handleInterruptCycle_interrupts_active 12000 initial)).
    reflexivity.
Defined.

(** ** What the store operations leave alone *)

Lemma String_inj a b : String_ a = String_ b -> a = b.
Proof.
  unfold String_. intros H.
  apply DecimalZ.to_int_inj.
  assert (Hn : forall z, Z.to_int z <> Decimal.Pos Decimal.Nil /\
                         Z.to_int z <> Decimal.Neg Decimal.Nil).
  { intros [|q|q]; simpl; split; try discriminate;
      intros E; inversion E as [E']; now apply DecimalPos.Unsigned.to_uint_nonnil in E'. }
  apply (f_equal NilZero.int_of_string) in H.
  rewrite !NilZero.isi in H by apply Hn. congruence.
Qed.

Lemma marked_ids aid (upd : Cycle.t -> Cycle.t) l :
  (forall c, Cycle.id (upd c) = Cycle.id c) ->
  map Cycle.id (map (fun c => if isActive aid c then upd c else c) l) = map Cycle.id l.
Proof.
  intros Hu. rewrite map_map. apply map_ext. intros c.
  destruct (isActive aid c); auto.
Qed.

Lemma fire_ids e st :
  map Cycle.id (cycles (fire e st)) =
  map Cycle.id (cycles st) ++ map String_ (submitTimes [e]).
Proof.
  destruct e as [data now|now|now]; simpl.
  - rewrite handleCreateNewCycle_cycles, map_app. reflexivity.
  - rewrite handleInterruptCycle_cycles, app_nil_r. unfold markInterrupted.
    now apply (marked_ids _
                 (fun c => Cycle.withInterruptedDate (heapTop st + Cycle.addr c)%N now c)).
  - rewrite app_nil_r. unfold tick. destruct (interval st); [|reflexivity].
    destruct (_ >=? _); rewrite commit_cycles; simpl; [|reflexivity].
    unfold markFinished.
    now apply (marked_ids _
                 (fun c => Cycle.withFinishedDate (heapTop st + Cycle.addr c)%N now c)).
Qed.

Lemma run_ids es : forall st,
  map Cycle.id (cycles (run es st)) =
  map Cycle.id (cycles st) ++ map String_ (submitTimes es).
Proof.
  unfold run. induction es as [|e es IH]; intros st; simpl.
  - now rewrite app_nil_r.
  - rewrite IH, fire_ids. simpl. rewrite app_nil_r, <- app_assoc, map_app.
    reflexivity.
Qed.

Lemma NoDup_map_String_ l : NoDup l -> NoDup (map String_ l).
Proof.
  induction 1 as [|x l Hx Hl IH]; simpl; constructor; [|exact IH].
  intros Hin. apply in_map_iff in Hin as (y & Hy & Hin).
  apply String_inj in Hy. now subst.
Qed.






(** * Further properties of the component *)

(** ** Cycles stored along a run *)

Lemma marked_Forall (P : Cycle.t -> Prop) aid (upd : Cycle.t -> Cycle.t) l :
  (forall c, P c -> P (upd c)) ->
  Forall P l ->
  Forall P (map (fun c => if isActive aid c then upd c else c) l).
Proof.
  intros Hu H. rewrite Forall_map. eapply Forall_impl; [|exact H].
  intros c Hc. simpl. destruct (isActive aid c); auto.
Qed.

Lemma tick_cycles_Forall (P : Cycle.t -> Prop) now st :
  (forall a d c, P c -> P (Cycle.withFinishedDate a d c)) ->
  Forall P (cycles st) -> Forall P (cycles (tick now st)).
Proof.
  intros Hf H. unfold tick. destruct (interval st) as [seen|]; [|exact H].
  destruct (_ >=? _); rewrite commit_cycles; simpl; [|exact H].
  unfold markFinished.
  apply (marked_Forall P _
           (fun c => Cycle.withFinishedDate (heapTop st + Cycle.addr c)%N now c));
    auto.
Qed.

Lemma handleInterruptCycle_cycles_Forall (P : Cycle.t -> Prop) now st :
  (forall a d c, P c -> P (Cycle.withInterruptedDate a d c)) ->
  Forall P (cycles st) -> Forall P (cycles (handleInterruptCycle now st)).
Proof.
  intros Hf H. rewrite handleInterruptCycle_cycles. unfold markInterrupted.
  apply (marked_Forall P _
           (fun c => Cycle.withInterruptedDate (heapTop st + Cycle.addr c)%N now c));
    auto.
Qed.

Lemma schema_task data :
  newCycleFormValidationSchema data = true -> NewCycleFormData.task data <> "".
Proof.
  unfold newCycleFormValidationSchema. rewrite !andb_true_iff.
  intros [[H _] _] E. rewrite E in H. discriminate.
Qed.

(** X1.  After [handleCreateNewCycle] the active cycle is the new one
    when no stored cycle already has its id (the time of the call in
    decimal).  When one does, [find] stops at the first such cycle: that
    older cycle is the active one, and the new cycle only sits at the
    end of the sequence. *)
Theorem new_cycle_active_unless_id_stored data now st :
  let stored := find (isActive (Some (String_ now))) (cycles st) in
  let newCycle := Cycle.mk (heapTop st) (String_ now) (NewCycleFormData.task data)
                           (NewCycleFormData.minutesAmount data) now None None in
  (stored = None ->
     activeCycle (handleCreateNewCycle data now st) = Some newCycle) /\
  (forall older, stored = Some older ->
     activeCycle (handleCreateNewCycle data now st) = Some older /\
     In older (cycles st) /\
     nth_error (cycles (handleCreateNewCycle data now st)) (List.length (cycles st))
       = Some newCycle).
Proof.
  intros stored newCycle. unfold activeCycle.
  rewrite handleCreateNewCycle_cycles, handleCreateNewCycle_activeCycleId.
  fold newCycle. split.
  - intros F. unfold stored in F. rewrite (find_app_r _ _ _ F). simpl.
    now rewrite String.eqb_refl.
  - intros older F. unfold stored in F. rewrite (find_app_l _ _ _ _ F).
    repeat split.
    + now apply find_some in F.
    + rewrite nth_error_app2, Nat.sub_diag by lia. reflexivity.
Qed.

Lemma new_cycle_active_unless_id_stored_witness :
  let st := handleInterruptCycle 1000 (handleCreateNewCycle fiveMinutes 1000 initial) in
  let again := handleCreateNewCycle (NewCycleFormData.mk "b" 60) 1000 st in
  option_map Cycle.task (activeCycle (handleCreateNewCycle fiveMinutes 1000 initial))
    = Some "a" /\
  option_map Cycle.task (activeCycle again) = Some "a" /\
  option_map Cycle.interruptedDate (activeCycle again) = Some (Some 1000) /\
  map Cycle.task (cycles again) = ["a"; "b"].
Proof.
  intros st again.
  pose proof (proj1 (new_cycle_active_unless_id_stored fiveMinutes 1000 initial) eq_refl) as H1.
  pose proof (proj2 (new_cycle_active_unless_id_stored (NewCycleFormData.mk "b" 60) 1000 st)
                    (Cycle.mk 1 "1000" "a" 5 1000 (Some 1000) None) eq_refl) as [H2 _].
  fold again in H2. rewrite H1, H2. repeat split.
Defined.

Lemma reachable_admitted st : reachable st -> Forall admitted (cycles st).
Proof.
  induction 1 as [|st e R IH He]; [constructor|].
  destruct e as [data now|now|now]; simpl.
  - apply enabled_Submit in He as [_ Hv].
    rewrite handleCreateNewCycle_cycles. apply Forall_app.
    split; [exact IH | constructor; [|constructor]].
    split; simpl; [now apply schema_task | now apply schema_minutes].
  - apply handleInterruptCycle_cycles_Forall; [|exact IH]. now intros a d c.
  - apply tick_cycles_Forall; [|exact IH]. now intros a d c.
Qed.

(** X2.  Every cycle stored in a state the page can reach went through
    the form's schema: its task is not empty and its minutes are
    between 5 and 60, whatever interruptions and ticks followed. *)
Theorem reachable_cycles_passed_the_schema st c :
  reachable st -> In c (cycles st) ->
  Cycle.task c <> "" /\ 5 <= Cycle.minutesAmount c <= 60.
Proof.
  intros R Hin. pose proof (reachable_admitted st R) as H.
  rewrite Forall_forall in H. destruct (H c Hin) as (Ht & Hm). auto.
Qed.

Lemma reachable_cycles_passed_the_schema_witness :
  let st := run [Submit fiveMinutes 1000; Tick 301000; ClickInterrupt 302000] initial in
  let c := Cycle.mk 3 "1000" "a" 5 1000 (Some 302000) (Some 301000) in
  Cycle.task c <> "" /\ 5 <= Cycle.minutesAmount c <= 60.
Proof.
  intros st c. apply (reachable_cycles_passed_the_schema st c).
  - apply (reachable_run [Submit fiveMinutes 1000; Tick 301000; ClickInterrupt 302000]);
      [constructor | reflexivity].
  - left. reflexivity.
Defined.

(** ** The store only grows *)

Lemma sameIdentity_refl c : sameIdentity c c.
Proof. unfold sameIdentity. repeat split; auto. Qed.

Lemma sameIdentity_trans c1 c2 c3 :
  sameIdentity c1 c2 -> sameIdentity c2 c3 -> sameIdentity c1 c3.
Proof.
  unfold sameIdentity. intros (A1 & A2 & A3 & A4 & A5 & A6) (B1 & B2 & B3 & B4 & B5 & B6).
  repeat split; try congruence; auto.
Qed.

Lemma marked_nth aid (upd : Cycle.t -> Cycle.t) l i c :
  (forall c, sameIdentity c (upd c)) ->
  nth_error l i = Some c ->
  exists c', nth_error (map (fun c => if isActive aid c then upd c else c) l) i = Some c' /\
             sameIdentity c c'.
Proof.
  intros Hu H. rewrite nth_error_map, H. simpl. eexists. split; [reflexivity|].
  destruct (isActive aid c); [apply Hu | apply sameIdentity_refl].
Qed.

Lemma fire_keeps_position e st i c :
  nth_error (cycles st) i = Some c ->
  exists c', nth_error (cycles (fire e st)) i = Some c' /\ sameIdentity c c'.
Proof.
  intros H. destruct e as [data now|now|now]; simpl.
  - rewrite handleCreateNewCycle_cycles. exists c. split; [|apply sameIdentity_refl].
    rewrite nth_error_app1; [exact H|]. apply nth_error_Some. congruence.
  - rewrite handleInterruptCycle_cycles. unfold markInterrupted.
    apply (marked_nth _ (fun c => Cycle.withInterruptedDate (heapTop st + Cycle.addr c)%N now c));
      [|exact H].
    intros c0. unfold sameIdentity. simpl. repeat split; auto. discriminate.
  - unfold tick. destruct (interval st) as [seen|];
      [|exists c; split; [exact H | apply sameIdentity_refl]].
    destruct (_ >=? _); rewrite commit_cycles; simpl;
      [|exists c; split; [exact H | apply sameIdentity_refl]].
    unfold markFinished.
    apply (marked_nth _ (fun c => Cycle.withFinishedDate (heapTop st + Cycle.addr c)%N now c));
      [|exact H].
    intros c0. unfold sameIdentity. simpl. repeat split; auto. discriminate.
Qed.

(** X3.  Through any sequence of submits, stop clicks and ticks, a
    stored cycle keeps its position in the sequence and its id, task,
    minutes and start date; a date that was set on it is still set.
    No event removes or reorders cycles. *)
Theorem stored_cycles_stay es : forall st i c,
  nth_error (cycles st) i = Some c ->
  exists c', nth_error (cycles (run es st)) i = Some c' /\ sameIdentity c c'.
Proof.
  unfold run. induction es as [|e es IH]; intros st i c H; simpl.
  - exists c. split; [exact H | apply sameIdentity_refl].
  - destruct (fire_keeps_position e st i c H) as (c1 & H1 & S1).
    destruct (IH (fire e st) i c1 H1) as (c2 & H2 & S2).
    exists c2. split; [exact H2 | eapply sameIdentity_trans; eassumption].
Qed.

Lemma stored_cycles_stay_witness :
  let st := handleCreateNewCycle fiveMinutes 1000 initial in
  let es := [Tick 301000; ClickInterrupt 302000;
             Submit (NewCycleFormData.mk "b" 10) 400000; Tick 401000] in
  exists c', nth_error (cycles (run es st)) 0 = Some c' /\
             sameIdentity (Cycle.mk 0 "1000" "a" 5 1000 None None) c'.
Proof.
  intros st es.
  apply (stored_cycles_stay es st 0%nat (Cycle.mk 0 "1000" "a" 5 1000 None None)).
  reflexivity.
Defined.

(** ** When the interval is scheduled *)

(** X4.  In every state the page can reach, these three say the same:
    an interval is scheduled, [activeCycleId] is not null, and [find]
    returns an active cycle.  In particular the interval of a finished
    cycle, whose id stays in [activeCycleId], stays scheduled. *)
Theorem interval_scheduled_iff_cycle_referenced st :
  reachable st ->
  (interval st = None <-> activeCycleId st = None) /\
  (activeCycle st = None <-> activeCycleId st = None).
Proof.
  intros R.
  assert (H : activeCycle st = None <-> activeCycleId st = None).
  { split; intros H.
    - destruct (activeCycleId st) as [i|] eqn:E; [|reflexivity].
      destruct (reachable_activeCycleId_stored st i R E) as (c & Hc & _). congruence.
    - unfold activeCycle. rewrite H. apply find_isActive_None. }
  split; [|exact H].
  rewrite (synced_no_interval st (reachable_synced st R)). exact H.
Qed.

Lemma interval_scheduled_iff_cycle_referenced_witness :
  let st := run [Submit fiveMinutes 1000; Tick 301000] initial in
  (interval st = None <-> activeCycleId st = None) /\
  (activeCycle st = None <-> activeCycleId st = None).
Proof.
  intros st. apply (interval_scheduled_iff_cycle_referenced st).
  apply (reachable_run [Submit fiveMinutes 1000; Tick 301000]);
    [constructor | reflexivity].
Defined.

Lemma handleInterruptCycle_activeCycle now st :
  activeCycle (handleInterruptCycle now st) = None.
Proof.
  unfold activeCycle. rewrite handleInterruptCycle_activeCycleId.
  apply find_isActive_None.
Qed.

(** X5.  A stop click ends the countdown: afterwards no interval is
    scheduled, a firing of the interval changes nothing at all, the
    counter keeps the value it had, the display reads 00:00, and a
    second stop click changes no cycle. *)
Theorem interrupt_stops_the_countdown now st :
  synced st ->
  let stopped := handleInterruptCycle now st in
  interval stopped = None /\
  (forall later, tick later stopped = stopped) /\
  amountSecondsPassed stopped = amountSecondsPassed st /\
  display stopped = "00:00" /\
  (forall later, cycles (handleInterruptCycle later stopped) = cycles stopped).
Proof.
  intros Hs stopped.
  assert (Hi : interval stopped = None).
  { apply (synced_no_interval stopped).
    - now apply synced_handleInterruptCycle.
    - apply handleInterruptCycle_activeCycle. }
  repeat split.
  - exact Hi.
  - intros later. unfold tick. now rewrite Hi.
  - unfold stopped, handleInterruptCycle. now rewrite commit_amountSecondsPassed.
  - apply display_inactive, handleInterruptCycle_activeCycle.
  - intros later. rewrite handleInterruptCycle_cycles. unfold markInterrupted.
    apply (mark_absent (activeCycleId stopped)
             (fun c => Cycle.withInterruptedDate (heapTop stopped + Cycle.addr c)%N later c)).
    apply handleInterruptCycle_activeCycle.
Qed.

Lemma interrupt_stops_the_countdown_witness :
  let stopped :=
    handleInterruptCycle 11000 (tick 10000 (handleCreateNewCycle fiveMinutes 1000 initial)) in
  interval stopped = None /\
  (forall later, tick later stopped = stopped) /\
  amountSecondsPassed stopped = 9 /\
  display stopped = "00:00" /\
  (forall later, cycles (handleInterruptCycle later stopped) = cycles stopped).
Proof.
  intros stopped.
  apply (interrupt_stops_the_countdown 11000
           (tick 10000 (handleCreateNewCycle fiveMinutes 1000 initial))).
  split; [reflexivity | repeat constructor].
Defined.

(** ** The countdown against the clock *)

Lemma differenceInSeconds_reaches total now start :
  0 < total ->
  (total <= differenceInSeconds now start <-> start + total * 1000 <= now).
Proof.
  intros Ht. unfold differenceInSeconds.
  pose proof (Z.quot_rem' (now - start) 1000) as E.
  destruct (Z.le_gt_cases 0 (now - start)) as [H|H].
  - pose proof (Z.rem_bound_pos (now - start) 1000 H ltac:(lia)). lia.
  - pose proof (Z.rem_bound_pos_neg (now - start) 1000 ltac:(lia) ltac:(lia)). lia.
Qed.

Lemma display_zero st c :
  activeCycle st = Some c -> amountSecondsPassed st = totalSeconds st ->
  display st = "00:00".
Proof.
  intros Ha E. unfold display, minutes, seconds, minutesAmount, secondsAmount,
    currentSeconds.
  now rewrite Ha, E, Z.sub_diag.
Qed.

(** X6.  For an active cycle of positive length, the tick marks it
    finished exactly from the millisecond [startDate + minutesAmount *
    60000] on.  A tick before that leaves every cycle as it is; a tick
    at or after it stamps the active cycle with the time of that tick
    (not with the due time), puts the counter at the full length and
    makes the display read 00:00. *)
Theorem tick_finishes_exactly_when_due now st c :
  synced st -> activeCycle st = Some c -> 0 < Cycle.minutesAmount c ->
  let due := Cycle.startDate c + Cycle.minutesAmount c * 60 * 1000 in
  (now < due -> cycles (tick now st) = cycles st) /\
  (due <= now ->
     option_map Cycle.finishedDate (activeCycle (tick now st)) = Some (Some now) /\
     amountSecondsPassed (tick now st) = Cycle.minutesAmount c * 60 /\
     display (tick now st) = "00:00").
Proof.
  intros Hs Ha Hm due.
  pose proof (totalSeconds_active st c Ha) as Ht.
  pose proof (differenceInSeconds_reaches (totalSeconds st) now (Cycle.startDate c)
                ltac:(lia)) as Hd.
  rewrite Ht in Hd at 2. fold due in Hd.
  split; intros H.
  - apply (tick_counting now st c Hs Ha). lia.
  - destruct (tick_finishing now st c Hs Ha) as [Hc Hn]; [apply Hd; exact H|].
    assert (Hf : activeCycle (tick now st) =
                 Some (Cycle.withFinishedDate (heapTop st + Cycle.addr c)%N now c)).
    { unfold activeCycle. rewrite tick_activeCycleId, Hc. unfold markFinished.
      rewrite (find_mark (activeCycleId st)
                 (fun c => Cycle.withFinishedDate (heapTop st + Cycle.addr c)%N now c))
        by reflexivity.
      fold (activeCycle st). now rewrite Ha. }
    repeat split.
    + now rewrite Hf.
    + now rewrite Hn.
    + apply (display_zero _ _ Hf). rewrite Hn.
      now rewrite (totalSeconds_active _ _ Hf).
Qed.

Lemma tick_finishes_exactly_when_due_witness :
  let st := handleCreateNewCycle fiveMinutes 1000 initial in
  cycles (tick 300999 st) = cycles st /\
  option_map Cycle.finishedDate (activeCycle (tick 301000 st)) = Some (Some 301000) /\
  amountSecondsPassed (tick 301000 st) = 5 * 60 /\
  display (tick 301000 st) = "00:00".
Proof.
  intros st.
  assert (Hs : synced st) by (split; [reflexivity | repeat constructor]).
  destruct (tick_finishes_exactly_when_due 300999 st
              (Cycle.mk 0 "1000" "a" 5 1000 None None) Hs eq_refl eq_refl) as [H1 _].
  destruct (tick_finishes_exactly_when_due 301000 st
              (Cycle.mk 0 "1000" "a" 5 1000 None None) Hs eq_refl eq_refl) as [_ H2].
  split; [apply H1; simpl; lia | apply H2; simpl; lia].
Defined.

Lemma ticks_keep_the_active_cycle ts : forall st c,
  synced st -> activeCycle st = Some c ->
  synced (run (map Tick ts) st) /\
  exists c', activeCycle (run (map Tick ts) st) = Some c' /\
             Cycle.minutesAmount c' = Cycle.minutesAmount c /\
             Cycle.startDate c' = Cycle.startDate c.
Proof.
  unfold run. induction ts as [|t ts IH]; intros st c Hs Ha; simpl.
  - split; [exact Hs | exists c; auto].
  - destruct (tick_activeCycle t st c Hs Ha) as (c1 & Ha1 & _ & Hm1 & Hs1).
    destruct (IH (tick t st) c1 (synced_tick t st Hs) Ha1) as (S2 & c2 & Ha2 & Hm2 & Hs2).
    split; [exact S2|]. exists c2. repeat split; congruence.
Qed.

(** X7.  The counter a tick writes depends on the time of that tick
    only, not on the ticks before it: whichever firings of the interval
    came earlier or were missed, a tick at [now] leaves the counter a
    single tick at [now] would leave. *)
Theorem counter_ignores_earlier_ticks earlier now st c :
  synced st -> activeCycle st = Some c ->
  amountSecondsPassed (tick now (run (map Tick earlier) st))
  = amountSecondsPassed (tick now st).
Proof.
  intros Hs Ha.
  destruct (ticks_keep_the_active_cycle earlier st c Hs Ha) as (S' & c' & Ha' & Hm & Hd).
  rewrite (tick_amountSecondsPassed now _ c' S' Ha').
  rewrite (tick_amountSecondsPassed now st c Hs Ha).
  rewrite (totalSeconds_active _ _ Ha'), (totalSeconds_active _ _ Ha).
  now rewrite Hm, Hd.
Qed.

Lemma counter_ignores_earlier_ticks_witness :
  let st := handleCreateNewCycle fiveMinutes 1000 initial in
  amountSecondsPassed (tick 66000 (run (map Tick [2000; 3100; 47000]) st))
  = amountSecondsPassed (tick 66000 st).
Proof.
  intros st.
  apply (counter_ignores_earlier_ticks [2000; 3100; 47000] 66000 st
           (Cycle.mk 0 "1000" "a" 5 1000 None None)).
  - split; [reflexivity | repeat constructor].
  - reflexivity.
Defined.

(** X8.  After a tick at or after the start of the active cycle, the
    counter is never ahead of the clock, and until it reaches the full
    length it is behind by less than one second:
    [counter * 1000 <= now - startDate < (counter + 1) * 1000]. *)
Theorem counter_within_a_second_of_the_clock now st c :
  synced st -> activeCycle st = Some c ->
  0 <= Cycle.minutesAmount c -> Cycle.startDate c <= now ->
  let counter := amountSecondsPassed (tick now st) in
  counter * 1000 <= now - Cycle.startDate c /\
  (counter < Cycle.minutesAmount c * 60 ->
   now - Cycle.startDate c < (counter + 1) * 1000).
Proof.
  intros Hs Ha Hm Hn counter. unfold counter.
  rewrite (tick_amountSecondsPassed now st c Hs Ha), (totalSeconds_active _ _ Ha).
  unfold differenceInSeconds.
  pose proof (Z.quot_rem' (now - Cycle.startDate c) 1000) as E.
  pose proof (Z.rem_bound_pos (now - Cycle.startDate c) 1000 ltac:(lia) ltac:(lia)).
  lia.
Qed.

Lemma counter_within_a_second_of_the_clock_witness :
  let st := handleCreateNewCycle fiveMinutes 1000 initial in
  let counter := amountSecondsPassed (tick 66999 st) in
  counter * 1000 <= 66999 - 1000 /\ 66999 - 1000 < (counter + 1) * 1000.
Proof.
  intros st counter.
  destruct (counter_within_a_second_of_the_clock 66999 st
              (Cycle.mk 0 "1000" "a" 5 1000 None None)) as [H1 H2].
  - split; [reflexivity | repeat constructor].
  - reflexivity.
  - simpl. lia.
  - simpl. lia.
  - split; [exact H1 | apply H2; vm_compute; reflexivity].
Defined.

(** ** The document title *)

Lemma sameTitleDeps_spec d1 d2 : sameTitleDeps d1 d2 = true <-> d1 = d2.
Proof.
  destruct d1 as [[m1 s1] c1], d2 as [[m2 s2] c2]. unfold sameTitleDeps.
  rewrite !andb_true_iff, !String.eqb_eq.
  rewrite (sameOption_spec N.eqb c1 c2 N.eqb_eq).
  split; [intros [[-> ->] ->]; reflexivity | intros H; inversion H; auto].
Qed.

Lemma home_runPage es : forall pg, home (runPage es pg) = run es (home pg).
Proof.
  unfold runPage, run. induction es as [|e es IH]; intros pg; simpl; [reflexivity|].
  now rewrite IH.
Qed.

Lemma firePage_title_follows e pg :
  (activeCycle (home pg) <> None -> title pg = display (home pg)) ->
  activeCycle (home (firePage e pg)) <> None ->
  title (firePage e pg) = display (home (firePage e pg)).
Proof.
  intros Hinv Ha. simpl in *. unfold commitTitle.
  destruct (sameTitleDeps _ _) eqn:E.
  - apply sameTitleDeps_spec in E. unfold titleDeps in E.
    inversion E as [[Hm Hs Hc]].
    unfold display. rewrite <- Hm, <- Hs. apply Hinv.
    intros Hn. rewrite Hn in Hc. simpl in Hc.
    destruct (activeCycle (fire e (home pg))); [discriminate | now apply Ha].
  - unfold titleEffect. destruct (activeCycle (fire e (home pg))); [reflexivity|].
    now contradiction Ha.
Qed.

Lemma runPage_title_follows es : forall pg,
  (activeCycle (home pg) <> None -> title pg = display (home pg)) ->
  activeCycle (home (runPage es pg)) <> None ->
  title (runPage es pg) = display (home (runPage es pg)).
Proof.
  unfold runPage. induction es as [|e es IH]; intros pg Hinv; simpl; [exact Hinv|].
  apply IH. now apply firePage_title_follows.
Qed.

(** X9.  From the first render and through any events, whenever there
    is an active cycle the document title is the displayed time
    MM:SS. *)
Theorem title_is_the_display_while_active title0 es :
  let pg := runPage es (mount title0) in
  activeCycle (home pg) <> None -> title pg = display (home pg).
Proof.
  intros pg Ha. unfold pg in *.
  apply (runPage_title_follows es (mount title0)); [|exact Ha].
  simpl. intros H. now contradiction H.
Qed.

Lemma title_is_the_display_while_active_witness :
  title (runPage [Submit fiveMinutes 1000; Tick 2000; Tick 66000] (mount "Ignite Timer"))
  = "03:55".
Proof.
  apply (title_is_the_display_while_active "Ignite Timer"
           [Submit fiveMinutes 1000; Tick 2000; Tick 66000]).
  discriminate.
Defined.

(** X10.  A stop click never writes the title.  So after the active
    cycle of a running page is interrupted, the title still shows the
    time that was displayed just before the click, while the display
    itself reads 00:00; and on a page where no cycle was started the
    title is the one the document came with. *)
Theorem title_left_as_it_was_by_interrupt :
  (forall pg now, title (firePage (ClickInterrupt now) pg) = title pg) /\
  (forall title0, title (mount title0) = title0) /\
  (forall title0 es now,
     let pg := runPage es (mount title0) in
     let pg' := firePage (ClickInterrupt now) pg in
     activeCycle (home pg) <> None ->
     title pg' = display (home pg) /\ display (home pg') = "00:00").
Proof.
  assert (H : forall pg now, title (firePage (ClickInterrupt now) pg) = title pg).
  { intros pg now. simpl. unfold commitTitle, titleEffect.
    rewrite handleInterruptCycle_activeCycle. now destruct (sameTitleDeps _ _). }
  split; [exact H | split; [reflexivity|]].
  intros title0 es now pg pg' Ha. split.
  - unfold pg'. rewrite H. unfold pg in *.
    apply (runPage_title_follows es (mount title0)); [|exact Ha].
    simpl. intros H0. now contradiction H0.
  - simpl. apply display_inactive, handleInterruptCycle_activeCycle.
Qed.

Lemma title_left_as_it_was_by_interrupt_witness :
  let pg := runPage [Submit fiveMinutes 1000; Tick 66000] (mount "Ignite Timer") in
  let pg' := firePage (ClickInterrupt 66500) pg in
  title pg' = "03:55" /\ display (home pg') = "00:00".
Proof.
  intros pg pg'.
  apply (proj2 (proj2 title_left_as_it_was_by_interrupt) "Ignite Timer"
               [Submit fiveMinutes 1000; Tick 66000] 66500).
  discriminate.
Defined.

(** ** The digits on the page *)

Lemma display_within_bounds st c :
  activeCycle st = Some c ->
  0 <= amountSecondsPassed st <= totalSeconds st -> totalSeconds st < 6000 ->
  0 <= currentSeconds st < 6000 /\
  minutes st = twoDigits (currentSeconds st / 60) /\
  seconds st = twoDigits (currentSeconds st mod 60).
Proof.
  intros Ha Hb Ht.
  assert (Hr : 0 <= currentSeconds st < 6000)
    by (unfold currentSeconds; rewrite Ha; lia).
  split; [exact Hr|].
  unfold minutes, seconds, minutesAmount, secondsAmount.
  rewrite Z.rem_mod_nonneg by lia.
  assert (Hs : 0 <= currentSeconds st mod 60 < 100)
    by (pose proof (Z.mod_pos_bound (currentSeconds st) 60); lia).
  assert (Hm : 0 <= currentSeconds st / 60 < 100)
    by (split; [apply Z.div_pos | apply Z.div_lt_upper_bound]; lia).
  now rewrite !padStart_two_digits.
Qed.

(** X11.  With an active cycle and the counter within the cycle's
    length (below 100 minutes), each of the four cells of the countdown
    holds a character, none is undefined, and the four of them around
    the colon are the whole displayed text: no digit of the minutes or
    the seconds is left out. *)
Theorem cells_show_the_whole_display st c :
  activeCycle st = Some c ->
  0 <= amountSecondsPassed st <= totalSeconds st -> totalSeconds st < 6000 ->
  exists m1 m0 s1 s0,
    cells st = [Some m1; Some m0; Some s1; Some s0] /\
    display st = String m1 (String m0 (String ":" (String s1 (String s0 "")))).
Proof.
  intros Ha Hb Ht.
  destruct (display_within_bounds st c Ha Hb Ht) as (_ & Hm & Hs).
  unfold cells, display. rewrite Hm, Hs. unfold twoDigits.
  do 4 eexists. split; reflexivity.
Qed.

Lemma cells_show_the_whole_display_witness :
  let st := tick 66000 (handleCreateNewCycle fiveMinutes 1000 initial) in
  exists m1 m0 s1 s0,
    cells st = [Some m1; Some m0; Some s1; Some s0] /\
    display st = String m1 (String m0 (String ":" (String s1 (String s0 "")))).
Proof.
  intros st.
  apply (cells_show_the_whole_display st (Cycle.mk 0 "1000" "a" 5 1000 None None)).
  - reflexivity.
  - vm_compute. split; discriminate.
  - reflexivity.
Defined.

Lemma readDisplay_twoDigits r :
  0 <= r < 6000 ->
  readDisplay (twoDigits (r / 60) ++ ":" ++ twoDigits (r mod 60))%string = r.
Proof.
  intros H.
  assert (Hall : forallb readsBack (seq 0 (Z.to_nat 6000)) = true)
    by (vm_compute; reflexivity).
  rewrite forallb_forall in Hall. specialize (Hall (Z.to_nat r)).
  unfold readsBack, displaySpec in Hall.
  rewrite Z2Nat.id, Z.sub_0_r in Hall by lia.
  apply Z.eqb_eq, Hall, in_seq. lia.
Qed.

(** X12.  The displayed text determines the remaining time: two states
    with an active cycle and the counter within the cycle's length
    (below 100 minutes) that display the same text have the same number
    of seconds left. *)
Theorem display_determines_remaining_seconds st1 c1 st2 c2 :
  activeCycle st1 = Some c1 ->
  0 <= amountSecondsPassed st1 <= totalSeconds st1 -> totalSeconds st1 < 6000 ->
  activeCycle st2 = Some c2 ->
  0 <= amountSecondsPassed st2 <= totalSeconds st2 -> totalSeconds st2 < 6000 ->
  display st1 = display st2 ->
  totalSeconds st1 - amountSecondsPassed st1 = totalSeconds st2 - amountSecondsPassed st2.
Proof.
  intros Ha1 Hb1 Ht1 Ha2 Hb2 Ht2 E.
  destruct (display_within_bounds st1 c1 Ha1 Hb1 Ht1) as (Hr1 & Hm1 & Hs1).
  destruct (display_within_bounds st2 c2 Ha2 Hb2 Ht2) as (Hr2 & Hm2 & Hs2).
  unfold display in E. rewrite Hm1, Hs1, Hm2, Hs2 in E.
  apply (f_equal readDisplay) in E.
  rewrite !readDisplay_twoDigits in E by assumption.
  unfold currentSeconds in E. now rewrite Ha1, Ha2 in E.
Qed.

Lemma display_determines_remaining_seconds_witness :
  let st1 := tick 66000 (handleCreateNewCycle fiveMinutes 1000 initial) in
  let st2 := tick 370000 (handleCreateNewCycle (NewCycleFormData.mk "b" 10) 5000 initial) in
  totalSeconds st1 - amountSecondsPassed st1 = totalSeconds st2 - amountSecondsPassed st2.
Proof.
  intros st1 st2.
  apply (display_determines_remaining_seconds
           st1 (Cycle.mk 0 "1000" "a" 5 1000 None None)
           st2 (Cycle.mk 0 "5000" "b" 10 5000 None None)).
  - reflexivity.
  - vm_compute. split; discriminate.
  - reflexivity.
  - reflexivity.
  - vm_compute. split; discriminate.
  - reflexivity.
  - reflexivity.
Defined.

(** ** A finished cycle that is still referenced *)

Lemma tick_due_activeCycle now st c :
  synced st -> activeCycle st = Some c -> 0 < Cycle.minutesAmount c ->
  Cycle.startDate c + Cycle.minutesAmount c * 60 * 1000 <= now ->
  activeCycle (tick now st)
  = Some (Cycle.withFinishedDate (heapTop st + Cycle.addr c)%N now c).
Proof.
  intros Hs Ha Hm Hd.
  pose proof (totalSeconds_active st c Ha) as Ht.
  destruct (tick_finishing now st c Hs Ha) as [Hc _].
  { apply differenceInSeconds_reaches; lia. }
  unfold activeCycle. rewrite tick_activeCycleId, Hc. unfold markFinished.
  rewrite (find_mark (activeCycleId st)
             (fun c => Cycle.withFinishedDate (heapTop st + Cycle.addr c)%N now c))
    by reflexivity.
  fold (activeCycle st). now rewrite Ha.
Qed.

(** X13.  Once the active cycle is due, every tick stamps it again: the
    interval is still scheduled after the tick that finished the cycle,
    and after any later tick the cycle's [finishedDate] is the time of
    that later tick, not the time it was first marked finished. *)
Theorem finished_cycle_restamped_by_later_ticks now later st c :
  synced st -> activeCycle st = Some c -> 0 < Cycle.minutesAmount c ->
  Cycle.startDate c + Cycle.minutesAmount c * 60 * 1000 <= now ->
  now <= later ->
  enabled (tick now st) (Tick later) = true /\
  option_map Cycle.finishedDate (activeCycle (tick now st)) = Some (Some now) /\
  option_map Cycle.finishedDate (activeCycle (tick later (tick now st)))
  = Some (Some later).
Proof.
  intros Hs Ha Hm Hd Hl.
  pose proof (tick_due_activeCycle now st c Hs Ha Hm Hd) as H1.
  pose proof (tick_due_activeCycle later (tick now st) _ (synced_tick now st Hs) H1) as H2.
  simpl in H2. rewrite H1, H2 by lia. repeat split.
  simpl. pose proof (tick_leaves_interval_scheduled now st c Hs Ha) as Hi.
  now destruct (interval (tick now st)).
Qed.

Lemma finished_cycle_restamped_by_later_ticks_witness :
  let st := handleCreateNewCycle fiveMinutes 1000 initial in
  enabled (tick 301000 st) (Tick 900000) = true /\
  option_map Cycle.finishedDate (activeCycle (tick 301000 st)) = Some (Some 301000) /\
  option_map Cycle.finishedDate (activeCycle (tick 900000 (tick 301000 st)))
  = Some (Some 900000).
Proof.
  intros st.
  apply (finished_cycle_restamped_by_later_ticks 301000 900000 st
           (Cycle.mk 0 "1000" "a" 5 1000 None None)).
  - split; [reflexivity | repeat constructor].
  - reflexivity.
  - reflexivity.
  - simpl. lia.
  - lia.
Defined.

(** ** The ids in the store *)

(** X14.  The ids in the store are the times of the submits, in
    decimal and in order, whatever stop clicks and ticks came between.
    So when no two submits happened in the same millisecond, the stored
    ids are pairwise distinct. *)
Theorem stored_ids_are_the_submit_times es :
  map Cycle.id (cycles (run es initial)) = map String_ (submitTimes es) /\
  (NoDup (submitTimes es) -> NoDup (map Cycle.id (cycles (run es initial)))).
Proof.
  pose proof (run_ids es initial) as H. simpl in H.
  split; [exact H|]. rewrite H. apply NoDup_map_String_.
Qed.

Lemma stored_ids_are_the_submit_times_witness :
  let es := [Submit fiveMinutes 1000; Tick 2000; ClickInterrupt 2500;
             Submit (NewCycleFormData.mk "b" 10) 3000; Tick 4000] in
  NoDup (map Cycle.id (cycles (run es initial))).
Proof.
  intros es. apply (proj2 (stored_ids_are_the_submit_times es)).
  simpl. repeat constructor; simpl; intuition discriminate.
Defined.
